(** * solid-i18n: the deep path reader, the template interpolator and the
      translation store of [src/solid-i18n.tsx], embedded in Rocq. *)

From Stdlib Require Import Ascii String ZArith.
From stdpp Require Import gmap strings list fin_maps pretty.

Local Open Scope string_scope.

(** ** JavaScript values

    A [string] stands for a JavaScript string whose code units are all
    below 256, one [ascii] per code unit.  [VNum n] is the number with the
    integer value [n] and [VNaN] is NaN.  A function object is a handle:
    what calling it does and which properties it carries is the host's
    business (see [Host]).  An object is the finite map of its own
    string-keyed data properties; what a value has through its prototype
    chain or through an accessor is the host's [inherited]. *)

#[warning="-register-all"] Inductive value : Type :=
| VUndefined
| VNull
| VBool (b : bool)
| VNum (n : Z)
| VNaN
| VStr (s : string)
| VFun (f : nat)
| VObj (props : gmap string value).

(** What an expression can do besides yielding a value: throw. *)
Inductive exn : Type :=
| TypeError
| Thrown (v : value).

Inductive result (A : Type) : Type :=
| Ok (a : A)
| Throw (e : exn).
Arguments Ok {A} a.
Arguments Throw {A} e.

#[global] Instance result_ret : MRet result := fun A a => Ok a.

#[global] Instance result_bind : MBind result := fun A B k m =>
  match m with
  | Ok a => k a
  | Throw e => Throw e
  end.

#[global] Instance result_fmap : FMap result := fun A B f m =>
  match m with
  | Ok a => Ok (f a)
  | Throw e => Throw e
  end.

(** [ToBoolean]: the test of [a ? x : y], of [a || b] and of [if (a)]. *)
Definition truthy (v : value) : bool :=
  match v with
  | VUndefined | VNull | VNaN => false
  | VBool b => b
  | VNum n => negb (n =? 0)%Z
  | VStr s => negb (String.eqb s "")
  | VFun _ | VObj _ => true
  end.

(** [a || b] *)
Definition or_else (a b : value) : value := if truthy a then a else b.

(** [a ?? b], which the code never uses: it is here for the comparison
    with the specification's wording of [translate]. *)
Definition nullish_else (a b : value) : value :=
  match a with
  | VUndefined | VNull => b
  | _ => a
  end.

(** [v !== undefined] *)
Definition is_defined (v : value) : bool :=
  match v with
  | VUndefined => false
  | _ => true
  end.

(** ** Strings *)

Definition code (c : ascii) : N := N_of_ascii c.

(** The white space and line terminators that [String.prototype.trim]
    strips, among the code units below 256: TAB, LF, VT, FF, CR, SP, NBSP. *)
Definition is_white_space (c : ascii) : bool :=
  let n := code c in
  (((9 <=? n) && (n <=? 13)) || (n =? 32) || (n =? 160))%N.

(** The code units that [.] refuses in a regular expression. *)
Definition is_line_terminator (c : ascii) : bool :=
  let n := code c in ((n =? 10) || (n =? 13))%N.

Fixpoint trim_start (s : string) : string :=
  match s with
  | EmptyString => EmptyString
  | String c s' => if is_white_space c then trim_start s' else s
  end.

Fixpoint trim_end (s : string) : string :=
  match s with
  | EmptyString => EmptyString
  | String c s' =>
      match trim_end s' with
      | EmptyString => if is_white_space c then EmptyString else String c EmptyString
      | r => String c r
      end
  end.

(** [s.trim()] *)
Definition trim (s : string) : string := trim_end (trim_start s).

(** [s.split('.')]: never empty, [''.split('.')] is [['']]. *)
Fixpoint split_dots (s : string) : list string :=
  match s with
  | EmptyString => [EmptyString]
  | String c s' =>
      if Ascii.eqb c "."%char then EmptyString :: split_dots s'
      else match split_dots s' with
           | seg :: segs => String c seg :: segs
           | [] => [String c EmptyString]
           end
  end.

(** [s.startsWith(p)] *)
Fixpoint starts_with (p s : string) : bool :=
  match p, s with
  | EmptyString, _ => true
  | String a p', String b s' => Ascii.eqb a b && starts_with p' s'
  | String _ _, EmptyString => false
  end.

Fixpoint string_drop (n : nat) (s : string) : string :=
  match n, s with
  | S k, String _ s' => string_drop k s'
  | _, _ => s
  end.

Definition digit (c : ascii) : option N :=
  let n := code c in
  if ((48 <=? n) && (n <=? 57))%N then Some (n - 48)%N else None.

Fixpoint parse_digits (acc : N) (s : string) : option N :=
  match s with
  | EmptyString => Some acc
  | String c s' => d ← digit c; parse_digits (10 * acc + d)%N s'
  end.

(** The property names that are array indices: the decimal numerals
    without a leading zero. *)
Definition array_index (b : string) : option N :=
  match b with
  | EmptyString => None
  | String c rest =>
      if Ascii.eqb c "0"%char
      then (if String.eqb rest "" then Some 0%N else None)
      else parse_digits 0 b
  end.

(** The own properties of a string [s]: its length and its code units.
    [None] when [b] names neither. *)
Definition string_member (s b : string) : option value :=
  if String.eqb b "length" then Some (VNum (Z.of_nat (String.length s)))
  else match array_index b with
       | Some i =>
           match String.get (N.to_nat i) s with
           | Some c => Some (VStr (String c EmptyString))
           | None => None
           end
       | None => None
       end.

(** ** The store and the host

    [createI18nContext] owns one signal, the current locale, and one state
    object, the dictionary, typed [Record<string, Record<string, any>>]:
    the table of a locale is an object. *)
Record store : Type := Store {
  currentLocale : string;
  dictionary : gmap string (gmap string value);
}.

(** Where a value that is not [undefined] or [null] looks for a member it
    does not own: the prototype of plain objects, of strings, of numbers, of
    booleans, or a function object [f] with what it has of its own and from
    [Function.prototype]. *)
Inductive holder : Type :=
| OfObject
| OfString
| OfNumber
| OfBoolean
| OfFunction (f : nat).

(** What the model leaves to the JavaScript host and to the caller's own
    code:
    - [call]: what a function object does when it is called with one
      argument; it may read and write the store it closes over, and throw;
    - [inherited h b]: what [a[b]] gives when [b] is no own data property
      of [a] and [h] is where [a] looks further, that is the member found
      on the prototype chain or the result of an accessor, which may throw;
      [undefined] when there is none;
    - [assign_inherited t table]: [Object.assign(t, table)] for an object
      [t] of the host, reached through [inherited]; it writes into that
      object, may throw on a read-only property, and returns [t]; what
      such a write changes for later lookups through [inherited] is not
      followed;
    - [object_to_string]: the conversion of an object or a function to a
      string, which runs its [toString];
    - [big_number_to_string]: the string form of a number from [10^21] on,
      which is in exponent notation. *)
Class Host : Type := {
  call : nat -> value -> store -> result value * store;
  inherited : holder -> string -> result value;
  assign_inherited : value -> gmap string value -> result value;
  object_to_string : value -> result string;
  big_number_to_string : Z -> string;
}.

Fixpoint strip_zeros (s : string) : string :=
  match s with
  | EmptyString => EmptyString
  | String c s' =>
      match strip_zeros s' with
      | EmptyString => if Ascii.eqb c "0"%char then EmptyString else String c EmptyString
      | r => String c r
      end
  end.

(** The exponent notation of the hosts below, [1.2e+21] for [12 * 10^20]:
    the digits without the zeros at their end, a point behind the first,
    and the exponent.  It is the notation of JavaScript for the numbers
    with at most 17 significant digits. *)
Definition exponent_form (n : Z) : string :=
  let digits := pretty (Z.abs n) in
  let mantissa :=
    match strip_zeros digits with
    | EmptyString => "0"
    | String d EmptyString => String d EmptyString
    | String d rest => String d ("." ++ rest)
    end in
  (if (n <? 0)%Z then "-" else "") ++ mantissa ++ "e+"
    ++ pretty (String.length digits - 1)%nat.

(** A host with nothing to inherit: its functions return [undefined], its
    values have their own properties only, and its objects print the way
    plain objects do. *)
Definition plain_host : Host := {|
  call := fun _ _ st => (Ok VUndefined, st);
  inherited := fun _ _ => Ok VUndefined;
  assign_inherited := fun t _ => Ok t;
  object_to_string := fun _ => Ok "[object Object]";
  big_number_to_string := exponent_form;
|}.

(** A host whose functions all set the current locale of the store they
    close over, as a translation function may that calls [locale]. *)
Definition setter_host : Host := {|
  call := fun _ _ st =>
    (Ok VUndefined, {| currentLocale := "changed"; dictionary := dictionary st |});
  inherited := fun _ _ => Ok VUndefined;
  assign_inherited := fun t _ => Ok t;
  object_to_string := fun _ => Ok "[object Object]";
  big_number_to_string := exponent_form;
|}.

(** The function objects of [standard_host]. *)
Definition fn_Object : nat := 0.
Definition fn_Number : nat := 1.
Definition fn_String : nat := 2.
Definition fn_Function : nat := 3.

(** The names of the constructors of [standard_host]. *)
Definition fn_name (f : nat) : string :=
  if Nat.eqb f fn_Object then "Object"
  else if Nat.eqb f fn_Number then "Number"
  else if Nat.eqb f fn_String then "String"
  else if Nat.eqb f fn_Function then "Function"
  else "".

(** The part of a standard host that the examples need: every object
    inherits [constructor] and [__proto__] from [Object.prototype], numbers
    and strings have their constructors, a constructor has its [name], and
    [caller] is an accessor of [Function.prototype] that throws.
    [Object.prototype] has no enumerable own property; the [name] of a
    function is read-only. *)
Definition standard_host : Host := {|
  call := fun f x st =>
    if Nat.eqb f fn_Object
    then (Ok (match x with VUndefined | VNull => VObj ∅ | _ => x end), st)
    else (Ok VUndefined, st);
  inherited := fun h b =>
    if String.eqb b "constructor" then
      Ok (match h with
          | OfObject => VFun fn_Object
          | OfNumber => VFun fn_Number
          | OfString => VFun fn_String
          | OfFunction _ => VFun fn_Function
          | OfBoolean => VUndefined
          end)
    else if String.eqb b "__proto__" then
      Ok (match h with OfObject => VObj ∅ | _ => VUndefined end)
    else match h with
         | OfFunction f =>
             if String.eqb b "caller" then Throw TypeError
             else if String.eqb b "name" then
               Ok (VStr (fn_name f))
             else Ok VUndefined
         | _ => Ok VUndefined
         end;
  assign_inherited := fun t table =>
    match t with
    | VFun _ => if decide (is_Some (table !! "name")) then Throw TypeError else Ok t
    | _ => Ok t
    end;
  object_to_string := fun v =>
    match v with
    | VFun f => Ok ("function " ++ fn_name f ++ "() { [native code] }")
    | _ => Ok "[object Object]"
    end;
  big_number_to_string := exponent_form;
|}.

Section Model.

Context `{Host}.

(** The own data property [b] of [a], when it has one. *)
Definition own_property (a : value) (b : string) : option value :=
  match a with
  | VStr s => string_member s b
  | VObj props => props !! b
  | _ => None
  end.

(** Where [a] looks for the members it does not own. *)
Definition holder_of (a : value) : option holder :=
  match a with
  | VUndefined | VNull => None
  | VBool _ => Some OfBoolean
  | VNum _ | VNaN => Some OfNumber
  | VStr _ => Some OfString
  | VFun f => Some (OfFunction f)
  | VObj _ => Some OfObject
  end.

(** [a[b]]: a [TypeError] on [undefined] and [null]; otherwise the own
    property when there is one, and else what the prototype chain or an
    accessor gives. *)
Definition get_member (a : value) (b : string) : result value :=
  match holder_of a with
  | None => Throw TypeError
  | Some h =>
      match own_property a b with
      | Some v => Ok v
      | None => inherited h b
      end
  end.

(** [xs.reduce(f, init)] *)
Fixpoint reduce (f : value -> string -> result value) (xs : list string)
    (init : value) : result value :=
  match xs with
  | [] => Ok init
  | x :: xs' => a ← f init x; reduce f xs' a
  end.

(** [deepReadObject(obj, path, defaultValue)], lines 28-39. *)
Definition deepReadObject (obj : value) (path : string) (defaultValue : value)
    : result value :=
  value ← reduce (fun a b => if truthy a then get_member a b else Ok VUndefined)
                 (split_dots (trim path)) obj;
  mret (if is_defined value then value else defaultValue).

(** The resolution in the words of the specification: current = table; for
    each segment, a falsy current short-circuits to [undefined], otherwise
    current = current[segment]. *)
Fixpoint resolve (current : value) (segments : list string) : result value :=
  match segments with
  | [] => Ok current
  | segment :: rest =>
      if truthy current
      then next ← get_member current segment; resolve next rest
      else Ok VUndefined
  end.

(** [ToString], which [String.prototype.replace] applies to what the
    replacer returns. *)
Definition to_string (v : value) : result string :=
  match v with
  | VUndefined => Ok "undefined"
  | VNull => Ok "null"
  | VBool true => Ok "true"
  | VBool false => Ok "false"
  | VNum n =>
      Ok (if (Z.abs n <? 10 ^ 21)%Z then pretty n else big_number_to_string n)
  | VNaN => Ok "NaN"
  | VStr s => Ok s
  | VFun _ | VObj _ => object_to_string v
  end.

(** [.*?}}] against the head of [s]: the capture, which is the shortest run
    of code units other than line terminators that is followed by [}}]. *)
Fixpoint lazy_until_close (s : string) : option string :=
  match s with
  | EmptyString => None
  | String c s' =>
      if starts_with "}}" s then Some EmptyString
      else if is_line_terminator c then None
      else String c <$> lazy_until_close s'
  end.

(** [/{{(.*?)}}/] against the head of [s]: the capture of the match. *)
Definition match_at (s : string) : option string :=
  if starts_with "{{" s then lazy_until_close (string_drop 2 s) else None.

(** [s.replace(/{{(.*?)}}/g, (_, key) => f(key))]: the scan tries a match at
    every index from the left; after a match it resumes behind the match,
    which is [skip] code units further. *)
Fixpoint replace_from (skip : nat) (f : string -> result value) (s : string)
    : result string :=
  match s with
  | EmptyString => Ok EmptyString
  | String c s' =>
      match skip with
      | S k => replace_from k f s'
      | O =>
          match match_at s with
          | Some key =>
              v ← f key;
              r ← to_string v;
              rest ← replace_from (3 + String.length key) f s';
              mret (r ++ rest)
          | None => rest ← replace_from 0 f s'; mret (String c rest)
          end
      end
  end.

Definition replace (f : string -> result value) (s : string) : result string :=
  replace_from 0 f s.

(** [template(str, params)], lines 58-60, with the default pattern, the
    only one [translate] uses. *)
Definition template (str : string) (params : value) : result string :=
  replace (fun key => deepReadObject params key (VStr "")) str.

(** Modelled from the spec: solid-js is a dependency, its signal is not in
    the sources.  [locale()], the read of the signal, gives the current
    locale. *)
Definition locale_signal (st : store) : string := currentLocale st.

(** Modelled from the spec: the setter of the solid-js signal stores the
    new value and returns it. *)
Definition setLocale (lang : string) (st : store) : result value * store :=
  (Ok (VStr lang), {| currentLocale := lang; dictionary := dictionary st |}).

(** The dictionary as the object it is. *)
Definition dict_object (st : store) : value := VObj (VObj <$> dictionary st).

(** Modelled from the spec: [setDict(lang, fn)] of the solid-js state
    replaces the entry [lang] of the dictionary by what [fn] returns for
    the current entry ([None] stands for [undefined]), and leaves the
    other entries alone. *)
Definition setDict (lang : string)
    (fn : option (gmap string value) -> gmap string value) (st : store) : store :=
  {| currentLocale := currentLocale st;
     dictionary := <[lang := fn (dictionary st !! lang)]> (dictionary st) |}.

(** [Object.assign(target, source)]: the keys of [source] win.  The call
    writes into [target] in place; a table is reached through its locale
    only, so the table the store holds afterwards is the merged one. *)
Definition object_assign (target source : gmap string value) : gmap string value :=
  source ∪ target.

(** [dict[locale()]]: the table of the current locale when the dictionary
    has one, and else what the dictionary object inherits under that
    name. *)
Definition current_table (st : store) : result value :=
  get_member (dict_object st) (locale_signal st).

(** [translate(key, params, defaultValue)], lines 110-119; an omitted
    argument is [VUndefined]. *)
Definition translate (key : string) (params defaultValue : value) (st : store)
    : result value * store :=
  match table ← current_table st;
        deepReadObject table key (or_else defaultValue (VStr "")) with
  | Throw e => (Throw e, st)
  | Ok val =>
      match val with
      | VFun f => call f params st
      | VStr s => (VStr <$> template s (or_else params (VObj ∅)), st)
      | _ => (Ok val, st)
      end
  end.

(** The wording of the specification for [translate]: the default is
    [defaultValue ?? ''] and a string is interpolated against
    [params ?? {}]; the rest is as in the code. *)
Definition translate_as_specified (key : string) (params defaultValue : value)
    (st : store) : result value * store :=
  match table ← current_table st;
        deepReadObject table key (nullish_else defaultValue (VStr "")) with
  | Throw e => (Throw e, st)
  | Ok val =>
      match val with
      | VFun f => call f params st
      | VStr s => (VStr <$> template s (nullish_else params (VObj ∅)), st)
      | _ => (Ok val, st)
      end
  end.

End Model.

(** The [actions] object, lines 121-165. *)
Module actions.
Section Actions.

Context `{Host}.

(** [add(lang, table)], lines 135-137.  [setDict] reads the current entry
    [t] as [dict[lang]], which an own table of [lang] answers and else the
    prototype chain.  An own table, or none at all, is merged with [table]
    and stored.  An inherited object is written into by [Object.assign],
    which returns it: the updater returns what it was given and [setDict]
    stores nothing. *)
Definition add (lang : string) (table : gmap string value) (st : store)
    : result value * store :=
  match dictionary st !! lang with
  | Some _ =>
      (Ok VUndefined, setDict lang (fun t => object_assign (default ∅ t) table) st)
  | None =>
      match inherited OfObject lang with
      | Throw e => (Throw e, st)
      | Ok t =>
          if truthy t
          then (_ ← assign_inherited t table; mret VUndefined, st)
          else (Ok VUndefined,
                setDict lang (fun t => object_assign (default ∅ t) table) st)
      end
  end.

(** [locale(lang?)]: [None] is the omitted argument; a string is truthy
    when it is not empty. *)
Definition locale (lang : option string) (st : store) : result value * store :=
  match lang with
  | Some l =>
      if truthy (VStr l) then setLocale l st else (Ok (VStr (locale_signal st)), st)
  | None => (Ok (VStr (locale_signal st)), st)
  end.

(** [dict(lang)]: the root of the read is the dictionary itself. *)
Definition dict (lang : string) (st : store) : result value * store :=
  (deepReadObject (dict_object st) lang VUndefined, st).

End Actions.
End actions.

(** [createI18nContext(init, lang)] *)
Definition createI18nContext (init : gmap string (gmap string value)) (lang : string)
    : store :=
  {| currentLocale := lang; dictionary := init |}.

(** ** Predicates used in the statements *)

Fixpoint string_forall (P : ascii -> bool) (s : string) : bool :=
  match s with
  | EmptyString => true
  | String c s' => P c && string_forall P s'
  end.

(** Only white space. *)
Definition all_white (s : string) : bool := string_forall is_white_space s.

(** No line terminator, so that [.*?] can run over it. *)
Definition dot_matches (s : string) : bool :=
  string_forall (fun c => negb (is_line_terminator c)) s.

(** No [.] in it: a single segment. *)
Definition dot_free (s : string) : bool :=
  string_forall (fun c => negb (Ascii.eqb c "."%char)) s.

(** A string that [trim_start] leaves alone. *)
Definition starts_clean (s : string) : bool :=
  match s with
  | EmptyString => true
  | String c _ => negb (is_white_space c)
  end.

(** A string that [trim_end] leaves alone. *)
Fixpoint ends_clean (s : string) : bool :=
  match s with
  | EmptyString => true
  | String c s' =>
      match s' with
      | EmptyString => negb (is_white_space c)
      | String _ _ => ends_clean s'
      end
  end.

(** [}}] occurs somewhere in [s]. *)
Fixpoint has_close (s : string) : bool :=
  match s with
  | EmptyString => false
  | String _ s' => starts_with "}}" s || has_close s'
  end.

(** The calls on the [actions] object, to state what a sequence of them
    does to the store. *)
Inductive action : Type :=
| Add (lang : string) (table : gmap string value)
| Locale (lang : option string)
| Dict (lang : string).

(** The call passes a truthy argument to [locale]: it sets the locale. *)
Definition sets_locale (a : action) : bool :=
  match a with
  | Locale (Some l) => truthy (VStr l)
  | _ => false
  end.

Section Runs.

Context `{Host}.

(** [lang] has a table of its own in the dictionary, or the dictionary has
    nothing truthy under that name, inherited members included: [add] then
    finds an own table or none. *)
Definition own_or_new (st : store) (lang : string) : Prop :=
  is_Some (dictionary st !! lang) \/
  exists v, inherited OfObject lang = Ok v /\ truthy v = false.

Definition run_action (a : action) (st : store) : result value * store :=
  match a with
  | Add lang table => actions.add lang table st
  | Locale lang => actions.locale lang st
  | Dict lang => actions.dict lang st
  end.

(** The store after the calls, made one after the other. *)
Fixpoint run_actions (acts : list action) (st : store) : store :=
  match acts with
  | [] => st
  | a :: acts' => run_actions acts' (run_action a st).2
  end.

End Runs.

(** The table of the examples of [deepReadObject]: [{a: {b: {c: 'hello'}}}]. *)
Definition abc_table : value :=
  VObj {[ "a" := VObj {[ "b" := VObj {[ "c" := VStr "hello" ]} ]} ]}.

(** [{name: 'Tom'}] *)
Definition tom : value := VObj {[ "name" := VStr "Tom" ]}.

(** The dictionary of the tests: [{fr: {title: 'Bonjour'}, en: {title: 'Hello'}}]. *)
Definition test_dict : gmap string (gmap string value) :=
  {[ "fr" := {[ "title" := VStr "Bonjour" ]};
     "en" := {[ "title" := VStr "Hello" ]} ]}.

(** [{{] occurs somewhere in [s]. *)
Fixpoint has_open (s : string) : bool :=
  match s with
  | EmptyString => false
  | String _ s' => starts_with "{{" s || has_open s'
  end.

(** No opening brace in it. *)
Definition brace_free (s : string) : bool :=
  string_forall (fun c => negb (Ascii.eqb c "{"%char)) s.

(** A path of one segment that [trim] leaves alone. *)
Definition plain_key (k : string) : Prop :=
  dot_free k = true /\ starts_clean k = true /\ trim_end k = k.

(** A capture the pattern takes whole: no line terminator in it and the
    first [}}] right behind it. *)
Definition capture (key : string) : Prop :=
  dot_matches key = true /\ has_close (key ++ "}") = false.

(** [params] as its type has it, [Record<string, string>]. *)
Definition flat_strings (props : gmap string value) : Prop :=
  forall k v, props !! k = Some v -> exists s, v = VStr s.

(** ** Properties *)

Section Properties.

Context `{Host}.

Lemma reduce_undefined segments :
  reduce (fun a b => if truthy a then get_member a b else Ok VUndefined)
         segments VUndefined = Ok VUndefined.
Proof. induction segments as [|seg segments IH]; [done | exact IH]. Qed.

(** The reducer of the code, which keeps folding [undefined] to the end of
    the array, computes the short-circuiting resolution. *)
Lemma reduce_resolve segments : forall current,
  reduce (fun a b => if truthy a then get_member a b else Ok VUndefined)
         segments current = resolve current segments.
Proof.
  induction segments as [|seg segments IH]; intros current; [done|].
  simpl. destruct (truthy current) eqn:Ht.
  - destruct (get_member current seg) as [next|e]; [apply IH | done].
  - apply reduce_undefined.
Qed.

Lemma split_dots_nonempty s : split_dots s <> [].
Proof.
  destruct s as [|c s]; [done|]. simpl.
  destruct (Ascii.eqb c "."); [done|]. by destruct (split_dots s).
Qed.

Lemma deepReadObject_resolve obj path defaultValue :
  deepReadObject obj path defaultValue =
  (v ← resolve obj (split_dots (trim path));
   mret (if is_defined v then v else defaultValue)).
Proof. unfold deepReadObject. by rewrite reduce_resolve. Qed.

Lemma resolve_undefined segments : resolve VUndefined segments = Ok VUndefined.
Proof. by destruct segments. Qed.

Lemma resolve_falsy current segments :
  truthy current = false -> segments <> [] ->
  resolve current segments = Ok VUndefined.
Proof. intros Hf Hne. destruct segments; [done | simpl; by rewrite Hf]. Qed.

Lemma resolve_app current pre rest :
  resolve current (pre ++ rest)%list =
  (mid ← resolve current pre; resolve mid rest).
Proof.
  revert current. induction pre as [|seg pre IH]; intros current; [done|].
  simpl. destruct (truthy current).
  - destruct (get_member current seg) as [next|e]; [apply IH | done].
  - symmetry. apply resolve_undefined.
Qed.

(** An own property is read before anything inherited. *)
Lemma get_member_own props b v :
  props !! b = Some v -> get_member (VObj props) b = Ok v.
Proof. intros Hv. unfold get_member. simpl. by rewrite Hv. Qed.

Lemma get_member_missing props b :
  props !! b = None -> get_member (VObj props) b = inherited OfObject b.
Proof. intros Hv. unfold get_member. simpl. by rewrite Hv. Qed.

(** What [get_member] throws comes from the host: the code never reads a
    member of [undefined] or [null]. *)
Lemma get_member_truthy_throw a b e :
  truthy a = true -> get_member a b = Throw e ->
  exists h, holder_of a = Some h /\ inherited h b = Throw e.
Proof.
  intros Ht. unfold get_member. destruct (holder_of a) as [h|] eqn:Hh.
  - destruct (own_property a b); [done|]. by exists h.
  - by destruct a.
Qed.

(** *** Trimming and splitting *)

Lemma append_cons c (s t : string) : String c s ++ t = String c (s ++ t).
Proof. reflexivity. Qed.

Lemma append_empty_l (t : string) : "" ++ t = t.
Proof. reflexivity. Qed.

Lemma append_empty_r (s : string) : s ++ "" = s.
Proof. induction s as [|c s IH]; [done | by rewrite append_cons, IH]. Qed.

Lemma trim_start_app_white ws s :
  all_white ws = true -> trim_start (ws ++ s) = trim_start s.
Proof.
  induction ws as [|c ws IH]; [done|]. rewrite append_cons. simpl.
  intros [Hc Hws]%andb_prop. rewrite Hc. by apply IH.
Qed.

Lemma trim_start_white ws : all_white ws = true -> trim_start ws = "".
Proof.
  intros Hw. rewrite <- (append_empty_r ws). by rewrite trim_start_app_white.
Qed.

Lemma trim_start_app s t :
  trim_start (s ++ t) = if all_white s then trim_start t else trim_start s ++ t.
Proof.
  induction s as [|c s IH]; [done|]. unfold all_white in *.
  rewrite append_cons. simpl.
  destruct (is_white_space c); [exact IH | done].
Qed.

Lemma trim_end_white ws : all_white ws = true -> trim_end ws = "".
Proof.
  induction ws as [|c ws IH]; [done|]. simpl.
  intros [Hc Hws]%andb_prop. rewrite (IH Hws). unfold all_white in *. by rewrite Hc.
Qed.

Lemma trim_end_app_white s ws :
  all_white ws = true -> trim_end (s ++ ws) = trim_end s.
Proof.
  intros Hw. induction s as [|c s IH].
  - by rewrite append_empty_l, trim_end_white.
  - rewrite append_cons. simpl. by rewrite IH.
Qed.

(** White space around a path does not change what [trim] makes of it. *)
Lemma trim_padding ws key ws' :
  all_white ws = true -> all_white ws' = true ->
  trim (ws ++ key ++ ws') = trim key.
Proof.
  intros Hw Hw'. unfold trim. rewrite trim_start_app_white by done.
  rewrite trim_start_app. destruct (all_white key) eqn:Hk.
  - rewrite (trim_start_white ws'), (trim_start_white key); done.
  - by apply trim_end_app_white.
Qed.


Lemma trim_start_clean s : starts_clean (trim_start s) = true.
Proof.
  induction s as [|c s IH]; [done|]. simpl.
  destruct (is_white_space c) eqn:Hc; [done|]. simpl. by rewrite Hc.
Qed.

Lemma trim_start_of_clean s : starts_clean s = true -> trim_start s = s.
Proof.
  destruct s as [|c s]; [done|]. simpl. intros Hc%negb_true_iff. by rewrite Hc.
Qed.

Lemma trim_end_clean s : starts_clean s = true -> starts_clean (trim_end s) = true.
Proof.
  destruct s as [|c s]; [done|]. simpl. intros Hc.
  destruct (trim_end s); [|done].
  apply negb_true_iff in Hc. by rewrite Hc; simpl; rewrite Hc.
Qed.


Lemma trim_end_app_kept s t :
  trim_end t <> "" -> trim_end (s ++ t) = s ++ trim_end t.
Proof.
  intros Ht. induction s as [|c s IH]; [done|].
  rewrite !(append_cons c s). simpl. rewrite IH.
  destruct s as [|d s]; [|done].
  rewrite append_empty_l. by destruct (trim_end t).
Qed.

Lemma trim_end_dot k : trim_end ("." ++ k) = "." ++ trim_end k.
Proof.
  change ("." ++ k) with (String "." k).
  change ("." ++ trim_end k) with (String "." (trim_end k)).
  simpl. by destruct (trim_end k).
Qed.

Lemma split_dots_dot_free s : dot_free s = true -> split_dots s = [s].
Proof.
  induction s as [|c s IH]; [done|]. unfold dot_free in *. simpl.
  intros [Hc Hs]%andb_prop. apply negb_true_iff in Hc. rewrite Hc.
  by rewrite (IH Hs).
Qed.

Lemma split_dots_app_dot a b :
  split_dots (a ++ "." ++ b) = (split_dots a ++ split_dots b)%list.
Proof.
  induction a as [|c a IH]; [done|]. rewrite append_cons. simpl.
  destruct (Ascii.eqb c "."); rewrite IH; [done|].
  pose proof (split_dots_nonempty a). by destruct (split_dots a).
Qed.

(** A first segment that does not begin with white space and a second
    that does not end with it are the two segments of the path, with the
    white space they have next to the dot. *)
Lemma split_trim_two_segments a b :
  dot_free a = true -> dot_free b = true ->
  starts_clean a = true -> trim_end b = b ->
  split_dots (trim (a ++ "." ++ b)) = [a; b].
Proof.
  intros Ha Hb Hca Hcb. unfold trim.
  rewrite trim_start_of_clean by by destruct a.
  rewrite trim_end_app_kept, trim_end_dot, Hcb.
  - by rewrite split_dots_app_dot, !split_dots_dot_free.
  - rewrite trim_end_dot. discriminate.
Qed.

(** *** The pattern [/{{(.*?)}}/g] *)

Lemma starts_with_close_app c k rest :
  starts_with "}}" (String c (k ++ "}")) = false ->
  starts_with "}}" (String c (k ++ "}}" ++ rest)) = false.
Proof.
  cbn [starts_with]. destruct (Ascii.eqb "}" c); [|done]. rewrite !andb_true_l.
  destruct k as [|d k]; [done|]. rewrite !(append_cons d k). cbn [starts_with].
  by destruct (Ascii.eqb "}" d).
Qed.

(** The pattern finds the capture [key] in front of the first [}}]. *)
Lemma lazy_until_close_complete key rest :
  dot_matches key = true -> has_close (key ++ "}") = false ->
  lazy_until_close (key ++ "}}" ++ rest) = Some key.
Proof.
  induction key as [|c key IH]; [done|].
  unfold dot_matches in *. rewrite !(append_cons c key). cbn [string_forall has_close].
  intros [Hc Hk]%andb_prop [Hp Hh]%orb_false_elim.
  cbn [lazy_until_close]. rewrite (starts_with_close_app _ _ _ Hp).
  apply negb_true_iff in Hc. rewrite Hc. by rewrite (IH Hk Hh).
Qed.

Lemma match_at_placeholder key rest :
  dot_matches key = true -> has_close (key ++ "}") = false ->
  match_at ("{{" ++ key ++ "}}" ++ rest) = Some key.
Proof.
  intros Hd Hc. unfold match_at. rewrite !append_cons, append_empty_l.
  simpl. by apply lazy_until_close_complete.
Qed.

Lemma starts_with_split p s :
  starts_with p s = true -> s = p ++ string_drop (String.length p) s.
Proof.
  revert s. induction p as [|c p IH]; intros s; [done|].
  destruct s as [|d s]; [done|]. rewrite append_cons. cbn [starts_with String.length string_drop].
  intros [Hc Hp]%andb_prop. apply Ascii.eqb_eq in Hc as ->.
  by rewrite <- (IH s Hp).
Qed.

(** What the pattern captures is followed by [}}], holds no line
    terminator and is the shortest such capture. *)
Lemma lazy_until_close_sound s : forall key,
  lazy_until_close s = Some key ->
  s = key ++ "}}" ++ string_drop (String.length key + 2) s /\
  dot_matches key = true /\ has_close (key ++ "}") = false.
Proof.
  induction s as [|c s IH]; intros key; [done|].
  cbn [lazy_until_close]. destruct (starts_with "}}" (String c s)) eqn:Hp.
  - intros [= <-]. split; [|done]. by apply (starts_with_split "}}").
  - destruct (is_line_terminator c) eqn:Hc; [done|].
    destruct (lazy_until_close s) as [k|] eqn:Hk; [|done].
    intros [= <-]. destruct (IH k eq_refl) as (Hs & Hd & Hh).
    split; [|split].
    + rewrite append_cons. simpl. by rewrite <- Hs.
    + unfold dot_matches in *. simpl. by rewrite Hc, Hd.
    + rewrite append_cons. cbn [has_close]. rewrite Hh, orb_false_r.
      rewrite Hs in Hp. revert Hp. cbn [starts_with].
      destruct (Ascii.eqb "}" c); [|done]. rewrite !andb_true_l.
      destruct k as [|d k]; [|by rewrite !append_cons].
      rewrite !append_empty_l, !append_cons. cbn [starts_with].
      by rewrite Ascii.eqb_refl.
Qed.

Lemma match_at_sound s key :
  match_at s = Some key ->
  s = "{{" ++ key ++ "}}" ++ string_drop (4 + String.length key) s /\
  dot_matches key = true /\ has_close (key ++ "}") = false.
Proof.
  unfold match_at. destruct (starts_with "{{" s) eqn:Hp; [|done].
  intros Hl. apply lazy_until_close_sound in Hl as (Hs & Hd & Hh).
  split; [|done]. apply (starts_with_split "{{") in Hp.
  rewrite Hp at 1. f_equal. rewrite Hs at 1. do 2 f_equal.
  destruct s as [|a [|b s]]; try done. simpl.
  by rewrite Nat.add_comm.
Qed.

(** Resuming [skip] code units further is scanning what is left there. *)
Lemma replace_from_skip f s : forall skip,
  replace_from skip f s = replace_from 0 f (string_drop skip s).
Proof.
  induction s as [|c s IH]; intros [|k]; try done.
  cbn [replace_from string_drop]. apply IH.
Qed.

Lemma string_drop_capture key rest :
  string_drop (2 + String.length key) (key ++ "}}" ++ rest) = rest.
Proof. induction key as [|c key IH]; [done | exact IH]. Qed.


Lemma template_no_match c s params :
  match_at (String c s) = None ->
  template (String c s) params = String c <$> template s params.
Proof.
  intros Hm. unfold template, replace. cbn [replace_from]. rewrite Hm.
  by destruct (replace_from 0 _ s).
Qed.

Lemma template_match s key params :
  match_at s = Some key ->
  template s params =
  (v ← deepReadObject params key (VStr "");
   r ← to_string v;
   rest ← template (string_drop (4 + String.length key) s) params;
   mret (r ++ rest)).
Proof.
  intros Hm. destruct s as [|c s]; [done|].
  unfold template, replace. cbn [replace_from]. rewrite Hm.
  by rewrite replace_from_skip.
Qed.

Lemma template_placeholder key rest params :
  dot_matches key = true -> has_close (key ++ "}") = false ->
  template ("{{" ++ key ++ "}}" ++ rest) params =
  (v ← deepReadObject params key (VStr "");
   r ← to_string v;
   rest' ← template rest params;
   mret (r ++ rest')).
Proof.
  intros Hd Hc. rewrite (template_match _ key) by by apply match_at_placeholder.
  change (string_drop (4 + String.length key) ("{{" ++ key ++ "}}" ++ rest))
    with (string_drop (2 + String.length key) (key ++ "}}" ++ rest)).
  by rewrite string_drop_capture.
Qed.

Lemma trim_end_of_clean s : ends_clean s = true -> trim_end s = s.
Proof.
  induction s as [|c s IH]; [done|]. intros Hc.
  destruct s as [|d s]; [simpl in *; by rewrite (negb_true_iff _) in Hc; rewrite Hc|].
  change (trim_end (String c (String d s)))
    with (match trim_end (String d s) with
          | EmptyString => if is_white_space c then EmptyString else String c EmptyString
          | r => String c r
          end).
  by rewrite IH.
Qed.

Lemma trim_clean_core ws s ws' :
  all_white ws = true -> all_white ws' = true ->
  starts_clean s = true -> ends_clean s = true ->
  trim (ws ++ s ++ ws') = s.
Proof.
  intros Hw Hw' Hs He. rewrite trim_padding by done. unfold trim.
  by rewrite trim_start_of_clean, trim_end_of_clean.
Qed.

Lemma deepReadObject_not_found obj path defaultValue :
  deepReadObject obj path VUndefined = Ok VUndefined ->
  deepReadObject obj path defaultValue = Ok defaultValue.
Proof.
  rewrite !deepReadObject_resolve.
  destruct (resolve obj (split_dots (trim path))) as [[]|]; by simpl.
Qed.


Lemma deepReadObject_padding obj ws key ws' defaultValue :
  all_white ws = true -> all_white ws' = true ->
  deepReadObject obj (ws ++ key ++ ws') defaultValue =
  deepReadObject obj key defaultValue.
Proof. intros Hw Hw'. unfold deepReadObject. by rewrite trim_padding. Qed.

(** C5: [deepReadObject({a:{b:{c:'hello'}}}, 'a.b.c')] is ['hello'], at
    ['a.b.d'] it is [undefined], and at ['a.b.d'] with the default
    ['fallback'] it is ['fallback'], in a host where objects inherit no
    member named [d]. *)
Theorem deepReadObject_examples :
  inherited OfObject "d" = Ok VUndefined ->
  deepReadObject abc_table "a.b.c" VUndefined = Ok (VStr "hello") /\
  deepReadObject abc_table "a.b.d" VUndefined = Ok VUndefined /\
  deepReadObject abc_table "a.b.d" (VStr "fallback") = Ok (VStr "fallback").
Proof.
  intros Hd. unfold abc_table. rewrite !deepReadObject_resolve.
  change (split_dots (trim "a.b.c")) with ["a"; "b"; "c"].
  change (split_dots (trim "a.b.d")) with ["a"; "b"; "d"].
  cbn [resolve truthy].
  repeat (erewrite get_member_own by apply lookup_singleton_eq;
          cbn [mbind result_bind resolve truthy]).
  rewrite get_member_missing by (by apply lookup_singleton_ne).
  by rewrite Hd.
Qed.

(** Reads a closed path through own properties. *)
Ltac read_own :=
  repeat (erewrite get_member_own by reflexivity;
          cbn [mbind result_bind resolve truthy negb Z.eqb String.eqb is_defined]).

(** C7: the read resolves the dot-split segments of the trimmed path from
    left to right, with [undefined] as soon as the current value is falsy;
    the default stands in for [undefined] only, and every other resolved
    value is returned as it is, the falsy [''], [0], [false] and [null]
    included.  [trim] takes the white space off both ends and nothing
    else, and the split is at every dot. *)
Theorem deepReadObject_left_to_right :
  (forall obj path defaultValue,
     deepReadObject obj path defaultValue =
     (v ← resolve obj (split_dots (trim path));
      mret (if is_defined v then v else defaultValue))) /\
  (forall ws s ws',
     all_white ws = true -> all_white ws' = true ->
     starts_clean s = true -> ends_clean s = true ->
     trim (ws ++ s ++ ws') = s) /\
  (forall a b, split_dots (a ++ "." ++ b) = (split_dots a ++ split_dots b)%list) /\
  (forall s, dot_free s = true -> split_dots s = [s]) /\
  (forall defaultValue,
     deepReadObject (VObj {[ "a" := VObj {[ "b" := VStr "" ]} ]}) "  a.b " defaultValue
       = Ok (VStr "") /\
     deepReadObject (VObj {[ "a" := VObj {[ "b" := VNum 0 ]} ]}) "  a.b " defaultValue
       = Ok (VNum 0) /\
     deepReadObject (VObj {[ "a" := VObj {[ "b" := VBool false ]} ]}) "  a.b " defaultValue
       = Ok (VBool false) /\
     deepReadObject (VObj {[ "a" := VObj {[ "b" := VNull ]} ]}) "  a.b " defaultValue
       = Ok VNull /\
     deepReadObject (VObj {[ "a" := VNum 0 ]}) " a.b.c" defaultValue = Ok defaultValue /\
     deepReadObject (VObj {[ "a" := VObj {[ "b" := VNum 1 ]};
                             "b" := VObj {[ "a" := VNum 2 ]} ]}) "a.b" defaultValue
       = Ok (VNum 1)).
Proof.
  split; [apply deepReadObject_resolve|].
  split; [apply trim_clean_core|].
  split; [apply split_dots_app_dot|].
  split; [apply split_dots_dot_free|].
  intros d. rewrite !deepReadObject_resolve.
  change (split_dots (trim "  a.b ")) with ["a"; "b"].
  change (split_dots (trim " a.b.c")) with ["a"; "b"; "c"].
  change (split_dots (trim "a.b")) with ["a"; "b"].
  cbn [resolve truthy]. repeat split; by read_own.
Qed.

Lemma resolve_throw segments : forall current e,
  resolve current segments = Throw e ->
  exists h b, inherited h b = Throw e.
Proof.
  induction segments as [|seg segments IH]; intros current e; [done|].
  simpl. destruct (truthy current) eqn:Ht; [|done].
  destruct (get_member current seg) as [next|e'] eqn:Hm.
  - apply IH.
  - intros [= ->].
    destruct (get_member_truthy_throw _ _ _ Ht Hm) as (h & _ & Hh). eauto.
Qed.

(** C2 (amended): the read never throws for want of a value: what it throws
    is what an accessor met on the path throws, so it returns whenever the
    host's lookups do.  It yields the default whenever the walk meets,
    before some segment, a falsy value or a value whose member of that
    name is [undefined].  With a current locale under which the dictionary
    has no member, every read of the current table yields the default and
    [translate] without a default yields ['']. *)
Theorem deepReadObject_never_throws :
  (forall obj path defaultValue e,
     deepReadObject obj path defaultValue = Throw e ->
     exists h b, inherited h b = Throw e) /\
  ((forall h b, exists v, inherited h b = Ok v) ->
   forall obj path defaultValue,
     exists v, deepReadObject obj path defaultValue = Ok v) /\
  (forall obj path defaultValue pre seg post cur,
     split_dots (trim path) = (pre ++ seg :: post)%list ->
     resolve obj pre = Ok cur ->
     truthy cur = false \/ get_member cur seg = Ok VUndefined ->
     deepReadObject obj path defaultValue = Ok defaultValue) /\
  (forall st key params defaultValue,
     dictionary st !! currentLocale st = None ->
     inherited OfObject (currentLocale st) = Ok VUndefined ->
     current_table st = Ok VUndefined /\
     deepReadObject VUndefined key defaultValue = Ok defaultValue /\
     translate key params VUndefined st = (Ok (VStr ""), st)).
Proof.
  assert (Hthrow : forall obj path defaultValue e,
     deepReadObject obj path defaultValue = Throw e ->
     exists h b, inherited h b = Throw e).
  { intros obj path d e. rewrite deepReadObject_resolve.
    destruct (resolve obj (split_dots (trim path))) as [v|e'] eqn:Hr; [done|].
    intros [= ->]. by eapply resolve_throw. }
  assert (Hundef : forall key d, deepReadObject VUndefined key d = Ok d).
  { intros key d. rewrite deepReadObject_resolve.
    by rewrite resolve_falsy by (done || apply split_dots_nonempty). }
  split; [exact Hthrow|]. split; [|split].
  - intros Hhost obj path d.
    destruct (deepReadObject obj path d) as [v|e] eqn:Hr; [by exists v|].
    destruct (Hthrow _ _ _ _ Hr) as (a & b & Hab).
    destruct (Hhost a b) as [v Hv]. congruence.
  - intros obj path d pre seg post cur Hsplit Hpre Hmiss.
    rewrite deepReadObject_resolve, Hsplit, resolve_app, Hpre.
    cbn [mbind result_bind resolve].
    destruct Hmiss as [-> | Hmiss]; [done|].
    destruct (truthy cur); [|done].
    rewrite Hmiss. cbn [mbind result_bind]. by rewrite resolve_undefined.
  - intros st key params d Hnone Hinh.
    assert (Hcur : current_table st = Ok VUndefined).
    { unfold current_table, dict_object, locale_signal.
      rewrite get_member_missing by (by rewrite lookup_fmap, Hnone).
      exact Hinh. }
    split; [exact Hcur|]. split; [apply Hundef|].
    unfold translate. rewrite Hcur. cbn [mbind result_bind].
    by rewrite Hundef.
Qed.


(** *** The store *)

(** C1 (amended): [translate] reads [key] in [dictionary[currentLocale]]
    with the default [defaultValue || ''], so a falsy default of any type
    gives way to ['']; what the read throws, [translate] throws; a callable
    resolved value is called with [params] and its result returned as it
    is, a string is interpolated against [params || {}], and anything else
    is returned unchanged.  With [params] that are [undefined], [null] or
    truthy this is the wording with [??] at the default
    [defaultValue || '']. *)
Theorem translate_dispatch key params defaultValue st :
  translate key params defaultValue st =
    match table ← current_table st;
          deepReadObject table key
            (if truthy defaultValue then defaultValue else VStr "") with
    | Throw e => (Throw e, st)
    | Ok (VFun f) => call f params st
    | Ok (VStr s) =>
        (VStr <$> template s (if truthy params then params else VObj ∅), st)
    | Ok val => (Ok val, st)
    end /\
  (params = VUndefined \/ params = VNull \/ truthy params = true ->
   translate key params defaultValue st =
   translate_as_specified key params
     (if truthy defaultValue then defaultValue else VStr "") st).
Proof.
  split.
  - unfold translate, or_else.
    by destruct (_ ← current_table st; _) as [[]|].
  - intros Hp. unfold translate, translate_as_specified.
    replace (nullish_else (if truthy defaultValue then defaultValue else VStr "")
               (VStr "")) with (or_else defaultValue (VStr ""))
      by (unfold or_else; destruct (truthy defaultValue) eqn:Hd; [|done];
          by destruct defaultValue).
    replace (nullish_else params (VObj ∅)) with (or_else params (VObj ∅)); [done|].
    unfold or_else. destruct Hp as [-> | [-> | Hp]]; [done | done |].
    rewrite Hp. by destruct params.
Qed.

(** Where the default is a string or omitted and [params] is an object
    or omitted, the code does what the specification words with [??]. *)
Lemma translate_as_specified_typed key params defaultValue st :
  (defaultValue = VUndefined \/ exists s, defaultValue = VStr s) ->
  (params = VUndefined \/ exists props, params = VObj props) ->
  translate key params defaultValue st =
  translate_as_specified key params defaultValue st.
Proof.
  intros [-> | [s ->]] [-> | [props ->]]; try done;
    unfold translate, translate_as_specified, or_else, nullish_else;
    simpl; destruct (String.eqb s "") eqn:Hs; try done;
    apply String.eqb_eq in Hs as ->; done.
Qed.

Lemma lookup_object_assign target source k :
  object_assign target source !! k =
  match source !! k with
  | Some v => Some v
  | None => target !! k
  end.
Proof.
  unfold object_assign. destruct (source !! k) as [v|] eqn:Hk.
  - by apply lookup_union_Some_l.
  - by rewrite lookup_union_r.
Qed.

Lemma current_table_own st t :
  dictionary st !! currentLocale st = Some t -> current_table st = Ok (VObj t).
Proof.
  intros Ht. unfold current_table, dict_object, locale_signal.
  apply get_member_own. by rewrite lookup_fmap, Ht.
Qed.

Lemma read_own_segment props path defaultValue v :
  dot_free (trim path) = true -> props !! trim path = Some v ->
  deepReadObject (VObj props) path defaultValue =
  Ok (if is_defined v then v else defaultValue).
Proof.
  intros Hd Hv. rewrite deepReadObject_resolve, split_dots_dot_free by done.
  cbn [resolve truthy]. by rewrite (get_member_own _ _ _ Hv).
Qed.

Lemma plain_key_trim k : plain_key k -> trim k = k.
Proof.
  intros (_ & Hs & He). unfold trim. by rewrite trim_start_of_clean.
Qed.

Lemma translate_own_leaf key params defaultValue st table s :
  dictionary st !! currentLocale st = Some table ->
  plain_key key -> table !! key = Some (VStr s) ->
  translate key params defaultValue st =
  (VStr <$> template s (if truthy params then params else VObj ∅), st).
Proof.
  intros Ht Hk Hs. pose proof (plain_key_trim _ Hk) as Htrim.
  unfold translate. rewrite (current_table_own _ _ Ht).
  cbn [mbind result_bind].
  rewrite (read_own_segment _ _ _ (VStr s)); [done | | by rewrite Htrim].
  rewrite Htrim. apply Hk.
Qed.

Lemma add_stores lang table st :
  own_or_new st lang ->
  actions.add lang table st =
  (Ok VUndefined, setDict lang (fun t => object_assign (default ∅ t) table) st).
Proof.
  intros [[t Ht] | (v & Hv & Hf)]; unfold actions.add.
  - by rewrite Ht.
  - destruct (dictionary st !! lang); [done|]. by rewrite Hv, Hf.
Qed.



Lemma add_locale lang table st :
  currentLocale (actions.add lang table st).2 = currentLocale st.
Proof.
  unfold actions.add. destruct (dictionary st !! lang); [done|].
  destruct (inherited OfObject lang) as [t|]; [|done].
  by destruct (truthy t).
Qed.

Lemma run_actions_locale acts : forall st,
  forallb (fun a => negb (sets_locale a)) acts = true ->
  currentLocale (run_actions acts st) = currentLocale st.
Proof.
  induction acts as [|a acts IH]; intros st; [done|].
  cbn [forallb run_actions]. intros [Ha Hacts]%andb_prop. rewrite (IH _ Hacts).
  destruct a as [lang table|[l|]|lang]; cbn [run_action]; try done.
  - apply add_locale.
  - cbn [sets_locale] in Ha. apply negb_true_iff in Ha.
    unfold actions.locale. by rewrite Ha.
Qed.

(** C6: [locale(x)] with a truthy [x] sets the current locale to [x] and
    returns [x]; [locale()] returns the current locale and leaves the store
    as it is; after [locale(x)] and any calls on the actions that set no
    locale, [locale()] returns [x]. *)
Theorem locale_set_then_get :
  (forall x st,
     x <> "" ->
     actions.locale (Some x) st =
     (Ok (VStr x), {| currentLocale := x; dictionary := dictionary st |})) /\
  (forall st, actions.locale None st = (Ok (VStr (currentLocale st)), st)) /\
  (forall x st acts,
     x <> "" ->
     forallb (fun a => negb (sets_locale a)) acts = true ->
     let st' := run_actions acts (actions.locale (Some x) st).2 in
     actions.locale None st' = (Ok (VStr x), st')).
Proof.
  assert (Hset : forall x st, x <> "" ->
    actions.locale (Some x) st =
    (Ok (VStr x), {| currentLocale := x; dictionary := dictionary st |})).
  { intros x st Hx. unfold actions.locale. simpl.
    apply String.eqb_neq in Hx. by rewrite Hx. }
  split; [exact Hset|]. split; [done|].
  intros x st acts Hx Hacts st'.
  change (actions.locale None st') with (Ok (VStr (currentLocale st')), st').
  subst st'. by rewrite (run_actions_locale _ _ Hacts), (Hset x st Hx).
Qed.

Lemma dict_resolve lang st :
  actions.dict lang st = (resolve (dict_object st) (split_dots (trim lang)), st).
Proof.
  unfold actions.dict. rewrite deepReadObject_resolve.
  by destruct (resolve _ _) as [[]|].
Qed.

(** C8 (amended): [dict(lang)] is the deep read of [lang] in the whole
    dictionary with no default: a dotted argument goes through the table
    of its first segment, as ['en.title'] does, and an argument whose first
    segment is no locale of the dictionary, and no member the dictionary
    inherits, gives [undefined]. *)
Theorem dict_reads_dictionary :
  (forall lang st,
     actions.dict lang st =
     (resolve (dict_object st) (split_dots (trim lang)), st)) /\
  (forall l k table v st,
     dot_free l = true -> dot_free k = true ->
     starts_clean l = true -> trim_end k = k ->
     dictionary st !! l = Some table -> table !! k = Some v ->
     actions.dict (l ++ "." ++ k) st = (Ok v, st)) /\
  (forall lang st,
     dictionary st !! hd "" (split_dots (trim lang)) = None ->
     inherited OfObject (hd "" (split_dots (trim lang))) = Ok VUndefined ->
     actions.dict lang st = (Ok VUndefined, st)) /\
  (forall lang,
     let st := createI18nContext test_dict lang in
     actions.dict "en.title" st = (Ok (VStr "Hello"), st) /\
     actions.dict "en" st = (Ok (VObj {[ "title" := VStr "Hello" ]}), st)).
Proof.
  split; [apply dict_resolve|]. split; [|split].
  - intros l k table v st Hl Hk Hcl Hck Ht Hv.
    rewrite dict_resolve, split_trim_two_segments by done.
    cbn [resolve truthy]. unfold dict_object.
    erewrite get_member_own by (by rewrite lookup_fmap, Ht).
    cbn [mbind result_bind truthy]. by rewrite (get_member_own _ _ _ Hv).
  - intros lang st Hnone Hinh. rewrite dict_resolve.
    pose proof (split_dots_nonempty (trim lang)) as Hne.
    destruct (split_dots (trim lang)) as [|seg rest]; [done|].
    cbn [resolve truthy hd] in *. unfold dict_object in *.
    rewrite get_member_missing by (by rewrite lookup_fmap, Hnone).
    rewrite Hinh. cbn [mbind result_bind]. by rewrite resolve_undefined.
  - intros lang st. rewrite !dict_resolve. subst st.
    change (split_dots (trim "en.title")) with ["en"; "title"].
    change (split_dots (trim "en")) with ["en"].
    cbn [resolve truthy]. unfold dict_object. split; by read_own.
Qed.

(** C9 (amended): when what the key resolves to, the default included, is
    no function, and [params] are all strings or omitted, [translate]
    leaves the current locale and the dictionary as they are, and a second
    call with the same arguments returns what the first returned. *)
Theorem translate_leaves_store key params defaultValue st :
  (forall f, (table ← current_table st;
              deepReadObject table key (or_else defaultValue (VStr "")))
             <> Ok (VFun f)) ->
  params = VUndefined \/ (exists props, params = VObj props /\ flat_strings props) ->
  (translate key params defaultValue st).2 = st /\
  translate key params defaultValue (translate key params defaultValue st).2 =
  translate key params defaultValue st.
Proof.
  intros Hfun _.
  assert (Hst : (translate key params defaultValue st).2 = st).
  { unfold translate.
    destruct (_ ← current_table st; _) as [[]|]; try done. by destruct (Hfun f). }
  split; [exact Hst | by rewrite Hst].
Qed.

(** C10 (amended): the path is trimmed as a whole and then split, so the
    white space next to an inner dot stays in the segment names: the
    segments of [' user .name '] are ['user '] and ['name'], and
    ['{{ user .name }}'] gives the empty string for every [params] that
    has no property named ['user '], own or inherited, whatever it has
    under ['user'];
    white space around the whole path changes nothing. *)
Theorem template_inner_white_space :
  (forall props,
     props !! "user " = None ->
     inherited OfObject "user " = Ok VUndefined ->
     template "{{ user .name }}" (VObj props) = Ok "") /\
  split_dots (trim " user .name ") = ["user "; "name"] /\
  (forall a b,
     dot_free a = true -> dot_free b = true ->
     starts_clean a = true -> trim_end b = b ->
     split_dots (trim (a ++ "." ++ b)) = [a; b]) /\
  (forall obj ws key ws' defaultValue,
     all_white ws = true -> all_white ws' = true ->
     deepReadObject obj (ws ++ key ++ ws') defaultValue =
     deepReadObject obj key defaultValue) /\
  (forall params,
     template "{{   user.name  }}" params = template "{{user.name}}" params).
Proof.
  split; [|split; [done|split; [|split]]].
  - intros props Hnone Hinh.
    change "{{ user .name }}" with ("{{" ++ " user .name " ++ "}}" ++ "").
    rewrite template_placeholder by done.
    rewrite deepReadObject_resolve.
    change (split_dots (trim " user .name ")) with ["user "; "name"].
    cbn [resolve truthy]. rewrite get_member_missing, Hinh by done. done.
  - apply split_trim_two_segments.
  - apply deepReadObject_padding.
  - intros params.
    change "{{   user.name  }}" with ("{{" ++ ("   " ++ "user.name" ++ "  ") ++ "}}" ++ "").
    change "{{user.name}}" with ("{{" ++ "user.name" ++ "}}" ++ "").
    rewrite !template_placeholder by done.
    by rewrite deepReadObject_padding.
Qed.

End Properties.

(** ** The theorems at concrete inputs *)

(** C1, counterexample: with the table of the current locale lacking the
    key and the default [0], the code returns [''] where the wording with
    [defaultValue ?? ''] returns [0]. *)
Lemma translate_falsy_default_counterexample :
  let st := createI18nContext test_dict "fr" in
  translate (H:=standard_host) "missing" VUndefined (VNum 0) st = (Ok (VStr ""), st) /\
  translate_as_specified (H:=standard_host) "missing" VUndefined (VNum 0) st
    = (Ok (VNum 0), st) /\
  translate (H:=standard_host) "missing" VUndefined (VNum 0) st <>
  translate_as_specified (H:=standard_host) "missing" VUndefined (VNum 0) st.
Proof.
  assert (Hcode : translate (H:=standard_host) "missing" VUndefined (VNum 0)
                    (createI18nContext test_dict "fr")
                  = (Ok (VStr ""), createI18nContext test_dict "fr"))
    by (vm_compute; reflexivity).
  assert (Hspec : translate_as_specified (H:=standard_host) "missing" VUndefined (VNum 0)
                    (createI18nContext test_dict "fr")
                  = (Ok (VNum 0), createI18nContext test_dict "fr"))
    by (vm_compute; reflexivity).
  cbv zeta. rewrite Hcode, Hspec. repeat split. discriminate.
Qed.

Lemma translate_dispatch_witness :
  translate (H:=standard_host) "title" tom (VNum 0) (createI18nContext test_dict "fr") =
  translate_as_specified (H:=standard_host) "title" tom
    (if truthy (VNum 0) then VNum 0 else VStr "") (createI18nContext test_dict "fr").
Proof.
  apply (@translate_dispatch standard_host). right. right. reflexivity.
Defined.

(** C2, counterexample: in a standard host the path ['constructor.caller']
    meets an accessor that throws, and the read throws; and in
    [{a: 'hello'}] the path ['a.length'] goes through the string ['hello'],
    which is no object, and the read yields [5], not the default. *)
Lemma deepReadObject_string_length_counterexample :
  deepReadObject (H:=standard_host) (VObj ∅) "constructor.caller" (VStr "fallback")
    = Throw TypeError /\
  resolve (H:=standard_host) (VObj {[ "a" := VStr "hello" ]}) ["a"] = Ok (VStr "hello") /\
  deepReadObject (H:=standard_host) (VObj {[ "a" := VStr "hello" ]}) "a.length"
    (VStr "fallback") = Ok (VNum 5) /\
  ~ (forall obj path defaultValue,
       exists v, deepReadObject (H:=standard_host) obj path defaultValue = Ok v) /\
  ~ (forall obj path defaultValue pre seg post cur,
       split_dots (trim path) = (pre ++ seg :: post)%list ->
       resolve (H:=standard_host) obj pre = Ok cur ->
       (forall props, cur <> VObj props) ->
       deepReadObject (H:=standard_host) obj path defaultValue = Ok defaultValue).
Proof.
  assert (Hthrow : deepReadObject (H:=standard_host) (VObj ∅) "constructor.caller"
                     (VStr "fallback") = Throw TypeError) by (vm_compute; reflexivity).
  split; [exact Hthrow|]. split; [reflexivity|]. split; [reflexivity|]. split.
  - intros Hclaim.
    destruct (Hclaim (VObj ∅) "constructor.caller" (VStr "fallback")) as [v Hv].
    congruence.
  - intros Hclaim.
    specialize (Hclaim (VObj {[ "a" := VStr "hello" ]}) "a.length" (VStr "fallback")
                  ["a"] "length" [] (VStr "hello") eq_refl eq_refl).
    discriminate Hclaim. intros props. discriminate.
Qed.

Lemma deepReadObject_never_throws_witness :
  (exists v, deepReadObject (H:=plain_host) abc_table "a.b.c" VUndefined = Ok v) /\
  deepReadObject (H:=standard_host) abc_table "a.x.c" (VStr "fallback")
    = Ok (VStr "fallback") /\
  translate (H:=standard_host) "title" tom VUndefined (createI18nContext test_dict "sw")
    = (Ok (VStr ""), createI18nContext test_dict "sw").
Proof.
  pose proof (@deepReadObject_never_throws plain_host) as (_ & Hhost & _ & _).
  pose proof (@deepReadObject_never_throws standard_host) as (_ & _ & Hmiss & Habsent).
  split; [|split].
  - apply Hhost. intros a b. by exists VUndefined.
  - apply (Hmiss abc_table "a.x.c" (VStr "fallback") ["a"] "x" ["c"]
             (VObj {[ "b" := VObj {[ "c" := VStr "hello" ]} ]})).
    + reflexivity.
    + reflexivity.
    + right. vm_compute. reflexivity.
  - apply (Habsent (createI18nContext test_dict "sw") "title" tom VUndefined);
      vm_compute; reflexivity.
Defined.

Lemma deepReadObject_examples_witness :
  deepReadObject (H:=standard_host) abc_table "a.b.c" VUndefined = Ok (VStr "hello") /\
  deepReadObject (H:=standard_host) abc_table "a.b.d" VUndefined = Ok VUndefined /\
  deepReadObject (H:=standard_host) abc_table "a.b.d" (VStr "fallback")
    = Ok (VStr "fallback").
Proof. apply (@deepReadObject_examples standard_host). reflexivity. Defined.

Lemma deepReadObject_left_to_right_witness :
  trim ("  " ++ "a b" ++ " ") = "a b" /\ split_dots "a b" = ["a b"].
Proof.
  pose proof (@deepReadObject_left_to_right standard_host)
    as (_ & Htrim & _ & Hsplit & _).
  split.
  - apply Htrim; reflexivity.
  - apply Hsplit. reflexivity.
Defined.


Lemma locale_set_then_get_witness :
  let st := createI18nContext test_dict "fr" in
  let st' := run_actions (H:=plain_host)
               [Add "sw" {[ "hello" := VStr "hej" ]}; Locale None; Dict "fr"; Locale (Some "")]
               (actions.locale (Some "en") st).2 in
  actions.locale (Some "en") st
    = (Ok (VStr "en"), {| currentLocale := "en"; dictionary := dictionary st |}) /\
  actions.locale None st' = (Ok (VStr "en"), st').
Proof.
  pose proof (@locale_set_then_get plain_host) as (Hset & _ & Hget).
  split.
  - apply Hset. discriminate.
  - apply Hget; [discriminate | reflexivity].
Defined.




(** C8, counterexample: in a standard host ['constructor'] is no locale of
    the dictionary, yet [dict('constructor')] is the function [Object] and
    [dict('constructor.name')] is ['Object']. *)
Lemma dict_inherited_name_counterexample :
  let st := createI18nContext test_dict "fr" in
  dictionary st !! "constructor" = None /\
  actions.dict (H:=standard_host) "constructor" st = (Ok (VFun fn_Object), st) /\
  actions.dict (H:=standard_host) "constructor.name" st = (Ok (VStr "Object"), st) /\
  ~ (forall lang st,
       dictionary st !! lang = None ->
       actions.dict (H:=standard_host) lang st = (Ok VUndefined, st)).
Proof.
  split; [vm_compute; reflexivity|].
  split; [vm_compute; reflexivity|].
  split; [vm_compute; reflexivity|].
  intros Hclaim.
  specialize (Hclaim "constructor" (createI18nContext test_dict "fr")).
  vm_compute in Hclaim. specialize (Hclaim eq_refl). discriminate Hclaim.
Qed.

Lemma dict_reads_dictionary_witness :
  let st := createI18nContext test_dict "fr" in
  actions.dict (H:=standard_host) ("en" ++ "." ++ "title") st = (Ok (VStr "Hello"), st) /\
  actions.dict (H:=standard_host) "sw" st = (Ok VUndefined, st).
Proof.
  pose proof (@dict_reads_dictionary standard_host) as (_ & Hdot & Hnone & _).
  split.
  - apply (Hdot "en" "title" {[ "title" := VStr "Hello" ]}); vm_compute; reflexivity.
  - apply Hnone; vm_compute; reflexivity.
Defined.

(** C9, counterexample: the dictionary holds no function, the key is
    missing and the default is a function that sets the locale:
    [translate] calls it and the current locale changes. *)
Lemma translate_callable_default_counterexample :
  let st := createI18nContext test_dict "fr" in
  currentLocale (translate (H:=setter_host) "missing" VUndefined (VFun 0) st).2
    = "changed" /\
  (translate (H:=setter_host) "missing" VUndefined (VFun 0) st).2 <> st.
Proof. split; [vm_compute; reflexivity|]. vm_compute. discriminate. Qed.

Lemma tom_flat_strings : flat_strings {[ "name" := VStr "Tom" ]}.
Proof. intros k v [_ <-]%lookup_singleton_Some. by exists "Tom". Qed.

Lemma translate_leaves_store_witness :
  let st := createI18nContext test_dict "fr" in
  (translate (H:=standard_host) "title" tom VUndefined st).2 = st /\
  translate (H:=standard_host) "title" tom VUndefined
    (translate (H:=standard_host) "title" tom VUndefined st).2 =
  translate (H:=standard_host) "title" tom VUndefined st.
Proof.
  apply (@translate_leaves_store standard_host).
  - intros f. vm_compute. discriminate.
  - right. exists {[ "name" := VStr "Tom" ]}. split; [reflexivity|].
    apply tom_flat_strings.
Defined.

(** C10, counterexample: with [params] holding a property named ['user ']
    the placeholder ['{{ user .name }}'] gives ['Tom'], not the empty
    string. *)
Lemma template_inner_white_space_counterexample :
  template (H:=plain_host) "{{ user .name }}" (VObj {[ "user " := tom ]}) = Ok "Tom" /\
  ~ (forall params, template (H:=plain_host) "{{ user .name }}" params = Ok "").
Proof.
  split; [vm_compute; reflexivity|].
  intros Hclaim. specialize (Hclaim (VObj {[ "user " := tom ]})).
  vm_compute in Hclaim. discriminate Hclaim.
Qed.

Lemma template_inner_white_space_witness :
  template (H:=plain_host) "{{ user .name }}" (VObj {[ "user" := tom ]}) = Ok "" /\
  split_dots (trim ("user " ++ "." ++ " name")) = ["user "; " name"] /\
  deepReadObject (H:=plain_host) tom ("  " ++ "name" ++ " ") VUndefined =
  deepReadObject (H:=plain_host) tom "name" VUndefined.
Proof.
  pose proof (@template_inner_white_space plain_host)
    as (Huser & _ & Hsplit & Hpad & _).
  split; [|split].
  - apply Huser; vm_compute; reflexivity.
  - apply Hsplit; reflexivity.
  - apply Hpad; reflexivity.
Defined.

(** ** Further properties of the interpolator and of the store *)

Section Further.

Context `{Host}.

Lemma fmap_ok_bind (c : ascii) (m : result string) (pre : string) :
  String c <$> (r ← m; mret (pre ++ r)) = (r ← m; mret (String c pre ++ r)).
Proof. by destruct m. Qed.

Lemma has_close_app a b : has_close (a ++ "}}" ++ b) = true.
Proof.
  induction a as [|c a IH]; [done|]. rewrite (append_cons c a).
  cbn [has_close]. by rewrite IH, orb_true_r.
Qed.

Lemma match_at_closes c s key :
  match_at (String c s) = Some key -> has_close s = true.
Proof.
  intros (Hs & _ & _)%match_at_sound.
  change ("{{" ++ key ++ "}}" ++ string_drop (4 + String.length key) (String c s))
    with (String "{" (String "{" (key ++ "}}" ++
            string_drop (4 + String.length key) (String c s)))) in Hs.
  injection Hs as _ ->. cbn [has_close]. by rewrite has_close_app, orb_true_r.
Qed.

Lemma template_unchanged s params :
  has_open s = false \/ has_close s = false ->
  template s params = Ok s.
Proof.
  induction s as [|c s IH]; [done|]. intros Hno.
  assert (Hm : match_at (String c s) = None).
  { destruct Hno as [Ho | Hc].
    - cbn [has_open] in Ho. apply orb_false_elim in Ho as [Ho _].
      unfold match_at. by rewrite Ho.
    - destruct (match_at (String c s)) as [key|] eqn:Hk; [|done].
      apply match_at_closes in Hk. cbn [has_close] in Hc.
      apply orb_false_elim in Hc as [_ Hc]. congruence. }
  rewrite template_no_match by done. rewrite IH; [done|].
  destruct Hno as [Ho | Hc]; [left | right].
  - cbn [has_open] in Ho. by apply orb_false_elim in Ho as [_ Ho].
  - cbn [has_close] in Hc. by apply orb_false_elim in Hc as [_ Hc].
Qed.

(** X1: A template in which [{{] does not occur, or [}}] does not, comes back
    as it is, whatever the parameters. *)
Theorem template_without_placeholder s params :
  has_open s = false \/ has_close s = false ->
  template s params = Ok s.
Proof. apply template_unchanged. Qed.

Lemma template_literal_prefix pre rest params :
  brace_free pre = true ->
  template (pre ++ rest) params = (r ← template rest params; mret (pre ++ r)).
Proof.
  induction pre as [|c pre IH]; intros Hb.
  - rewrite append_empty_l. by destruct (template rest params).
  - unfold brace_free in *. cbn [string_forall] in Hb.
    apply andb_prop in Hb as [Hc Hb]. apply negb_true_iff in Hc.
    rewrite (append_cons c pre), template_no_match.
    + rewrite (IH Hb). apply fmap_ok_bind.
    + unfold match_at. cbn [starts_with].
      by rewrite Ascii.eqb_sym, Hc.
Qed.

Lemma template_prefix_placeholder pre key rest params :
  brace_free pre = true -> capture key ->
  template (pre ++ "{{" ++ key ++ "}}" ++ rest) params =
  (v ← deepReadObject params key (VStr "");
   r ← to_string v;
   rest' ← template rest params;
   mret (pre ++ r ++ rest')).
Proof.
  intros Hb [Hd Hc]. rewrite template_literal_prefix by done.
  rewrite template_placeholder by done.
  destruct (deepReadObject params key (VStr "")) as [v|]; [|done]. simpl.
  destruct (to_string v) as [r|]; [|done]. simpl.
  by destruct (template rest params).
Qed.

(** X2: Text without an opening brace in front of a placeholder is copied, the
    placeholder gives way to the string form of what its capture reads in
    [params], and the scan goes on behind it. *)
Theorem template_text_then_placeholder pre key rest params :
  brace_free pre = true -> capture key ->
  template (pre ++ "{{" ++ key ++ "}}" ++ rest) params =
  (v ← deepReadObject params key (VStr "");
   r ← to_string v;
   rest' ← template rest params;
   mret (pre ++ r ++ rest')).
Proof. apply template_prefix_placeholder. Qed.

Lemma deepReadObject_found obj path v defaultValue :
  deepReadObject obj path VUndefined = Ok v -> v <> VUndefined ->
  deepReadObject obj path defaultValue = Ok v.
Proof.
  rewrite !deepReadObject_resolve.
  destruct (resolve obj (split_dots (trim path))) as [[]|]; simpl;
    unfold mret, result_ret; congruence.
Qed.

(** X4: What a placeholder reads is put in as it is: a string read for the
    capture is not scanned for placeholders again, whatever it holds. *)
Theorem template_value_verbatim pre key rest params v :
  brace_free pre = true -> capture key ->
  has_open rest = false \/ has_close rest = false ->
  deepReadObject params key VUndefined = Ok (VStr v) ->
  template (pre ++ "{{" ++ key ++ "}}" ++ rest) params = Ok (pre ++ v ++ rest).
Proof.
  intros Hb Hk Hrest Hv. rewrite template_prefix_placeholder by done.
  rewrite (deepReadObject_found _ _ _ _ Hv) by done.
  by rewrite template_unchanged.
Qed.

Lemma line_terminator_no_brace nl c :
  is_line_terminator nl = true -> is_line_terminator c = false ->
  Ascii.eqb c nl = false.
Proof.
  intros Hnl Hc. destruct (Ascii.eqb c nl) eqn:He; [|done].
  apply Ascii.eqb_eq in He as ->. congruence.
Qed.

Lemma lazy_until_close_broken k nl rest :
  has_close k = false -> is_line_terminator nl = true ->
  lazy_until_close (k ++ String nl rest) = None.
Proof.
  intros Hk Hnl.
  assert (Hb : Ascii.eqb "}" nl = false) by by apply line_terminator_no_brace.
  induction k as [|c k IH].
  - rewrite append_empty_l. cbn [lazy_until_close starts_with].
    by rewrite Hb, Hnl.
  - cbn [has_close] in Hk. apply orb_false_elim in Hk as [Hp Hk].
    rewrite (append_cons c k). cbn [lazy_until_close].
    assert (Hs : starts_with "}}" (String c (k ++ String nl rest)) = false).
    { revert Hp. cbn [starts_with]. destruct (Ascii.eqb "}" c); [|done].
      rewrite !andb_true_l. destruct k as [|d k].
      - intros _. rewrite append_empty_l. by rewrite Hb.
      - rewrite (append_cons d k). by destruct (Ascii.eqb "}" d). }
    rewrite Hs. destruct (is_line_terminator c); [done|]. by rewrite (IH Hk).
Qed.

Lemma template_copy_until_break k nl rest params :
  has_close k = false -> is_line_terminator nl = true ->
  template (k ++ String nl rest) params =
  (r ← template rest params; mret (k ++ String nl r)).
Proof.
  intros Hk Hnl.
  assert (Hopen : Ascii.eqb "{" nl = false) by by apply line_terminator_no_brace.
  induction k as [|c k IH].
  - rewrite append_empty_l, template_no_match.
    + by destruct (template rest params).
    + unfold match_at. cbn [starts_with]. by rewrite Hopen.
  - cbn [has_close] in Hk. apply orb_false_elim in Hk as [_ Hk'].
    rewrite (append_cons c k), template_no_match.
    + rewrite (IH Hk'). by destruct (template rest params).
    + unfold match_at.
      destruct (starts_with "{{" (String c (k ++ String nl rest))) eqn:Hs; [|done].
      cbn [starts_with] in Hs. apply andb_prop in Hs as [_ Hs].
      destruct k as [|d k].
      * rewrite append_empty_l in Hs. cbn [starts_with] in Hs.
        rewrite Hopen in Hs. done.
      * rewrite (append_cons d k). cbn [string_drop].
        apply lazy_until_close_broken; [|done].
        cbn [has_close] in Hk'. by apply orb_false_elim in Hk' as [_ Hk'].
Qed.

(** X3: A line terminator between [{{] and the first [}}] breaks the
    placeholder: it stays in the text as it is written, and the scan goes
    on behind the line terminator. *)
Theorem template_broken_placeholder k nl rest params :
  has_close k = false -> is_line_terminator nl = true ->
  template ("{{" ++ k ++ String nl rest) params =
  (r ← template rest params; mret ("{{" ++ k ++ String nl r)).
Proof.
  intros Hk Hnl.
  apply (template_copy_until_break (String "{" (String "{" k))); [|done].
  cbn [has_close starts_with]. rewrite Hk.
  by destruct k.
Qed.

(** X5: Only [undefined] gives way to the empty string: a placeholder whose
    capture names an own property holding [null], [false], [0] or NaN
    prints that value, and one whose capture names an own property holding
    [undefined], or no property, own or inherited, prints nothing. *)
Theorem template_prints_falsy_values pre key rest props :
  brace_free pre = true -> capture key ->
  has_open rest = false \/ has_close rest = false ->
  dot_free (trim key) = true ->
  let out := template (pre ++ "{{" ++ key ++ "}}" ++ rest) (VObj props) in
  (props !! trim key = Some VNull -> out = Ok (pre ++ "null" ++ rest)) /\
  (props !! trim key = Some (VBool false) -> out = Ok (pre ++ "false" ++ rest)) /\
  (props !! trim key = Some (VNum 0) -> out = Ok (pre ++ "0" ++ rest)) /\
  (props !! trim key = Some VNaN -> out = Ok (pre ++ "NaN" ++ rest)) /\
  (props !! trim key = Some VUndefined \/
   (props !! trim key = None /\
    inherited OfObject (trim key) = Ok VUndefined) ->
   out = Ok (pre ++ rest)).
Proof.
  intros Hb Hk Hrest Hd out. subst out.
  rewrite template_prefix_placeholder by done.
  rewrite template_unchanged by done.
  repeat split; try (by intros Hv; rewrite (read_own_segment _ _ _ _ Hd Hv)).
  intros [Hv | [Hv Hinh]]; [by rewrite (read_own_segment _ _ _ _ Hd Hv)|].
  rewrite deepReadObject_resolve, split_dots_dot_free by done.
  cbn [resolve truthy]. by rewrite get_member_missing, Hinh.
Qed.

(** *** Reading keys *)

Lemma trim_starts_clean path : starts_clean (trim path) = true.
Proof. apply trim_end_clean, trim_start_clean. Qed.

Lemma split_dots_first s :
  exists seg rest,
    split_dots s = seg :: rest /\ dot_free seg = true /\
    (starts_clean s = true -> starts_clean seg = true).
Proof.
  induction s as [|c s (seg & rest & Hs & Hd & _)]; [by exists "", []|].
  cbn [split_dots]. destruct (Ascii.eqb c ".") eqn:Hc.
  - by exists "", (split_dots s).
  - rewrite Hs. exists (String c seg), rest. repeat split; [|done].
    unfold dot_free in *. cbn [string_forall]. by rewrite Hc, Hd.
Qed.

Lemma read_unreachable props key v path defaultValue :
  dot_free key = false \/ starts_clean key = false ->
  deepReadObject (VObj (<[key := v]> props)) path defaultValue =
  deepReadObject (VObj props) path defaultValue.
Proof.
  intros Hkey. rewrite !deepReadObject_resolve.
  destruct (split_dots_first (trim path)) as (seg & rest & -> & Hd & Hc).
  specialize (Hc (trim_starts_clean path)).
  assert (Hne : key <> seg) by (intros ->; destruct Hkey; congruence).
  cbn [resolve truthy]. unfold get_member. cbn [own_property].
  rewrite lookup_insert_ne by done.
  by destruct (props !! seg).
Qed.

(** X8: A property whose name holds a dot, or begins with white space, is out
    of reach of every path: putting a value under such a name changes no
    read of the object. *)
Theorem deepReadObject_unreachable_name props key v path defaultValue :
  dot_free key = false \/ starts_clean key = false ->
  deepReadObject (VObj (<[key := v]> props)) path defaultValue =
  deepReadObject (VObj props) path defaultValue.
Proof. apply read_unreachable. Qed.

(** *** [translate] *)

(** X9: With a one-segment key that names a string of the current locale's
    table, [translate] is the interpolation of that string against
    [params || {}], whatever the default, and leaves the store alone. *)
Theorem translate_string_leaf key params defaultValue st table s :
  dictionary st !! currentLocale st = Some table ->
  plain_key key -> table !! key = Some (VStr s) ->
  translate key params defaultValue st =
  (VStr <$> template s (if truthy params then params else VObj ∅), st).
Proof. apply translate_own_leaf. Qed.

(** X10: The same through one nested table: [a.b] names the string under [b]
    in the object under [a]; the white space that [a] ends with or [b]
    begins with belongs to the names. *)
Theorem translate_nested_leaf a b params defaultValue st table inner s :
  dictionary st !! currentLocale st = Some table ->
  dot_free a = true -> dot_free b = true ->
  starts_clean a = true -> trim_end b = b ->
  table !! a = Some (VObj inner) -> inner !! b = Some (VStr s) ->
  translate (a ++ "." ++ b) params defaultValue st =
  (VStr <$> template s (if truthy params then params else VObj ∅), st).
Proof.
  intros Ht Ha Hb Hca Hcb Hinner Hs.
  unfold translate. rewrite (current_table_own _ _ Ht). cbn [mbind result_bind].
  rewrite deepReadObject_resolve, split_trim_two_segments by done.
  cbn [resolve truthy]. rewrite (get_member_own _ _ _ Hinner).
  cbn [mbind result_bind truthy]. by rewrite (get_member_own _ _ _ Hs).
Qed.

Lemma translate_default key params d st :
  (table ← current_table st; deepReadObject table key VUndefined) = Ok VUndefined ->
  translate key params (VStr d) st =
  (VStr <$> template d (if truthy params then params else VObj ∅), st).
Proof.
  intros Hmiss. unfold translate.
  destruct (current_table st) as [table|]; [|done]. cbn [mbind result_bind] in *.
  rewrite (deepReadObject_not_found _ _ _ Hmiss).
  unfold or_else. simpl. destruct (String.eqb d "") eqn:Hd; [|done].
  by apply String.eqb_eq in Hd as ->.
Qed.

(** X11: When the key resolves to nothing, a string default is not returned as
    it is: it is interpolated against [params || {}] like a translation. *)
Theorem translate_default_is_interpolated key params d st :
  (table ← current_table st; deepReadObject table key VUndefined) = Ok VUndefined ->
  translate key params (VStr d) st =
  (VStr <$> template d (if truthy params then params else VObj ∅), st).
Proof. apply translate_default. Qed.

(** X12: White space around the key changes neither [translate] nor [dict]. *)
Theorem translate_ignores_padding ws key ws' params defaultValue st :
  all_white ws = true -> all_white ws' = true ->
  translate (ws ++ key ++ ws') params defaultValue st =
    translate key params defaultValue st /\
  actions.dict (ws ++ key ++ ws') st = actions.dict key st.
Proof.
  intros Hw Hw'. unfold translate, actions.dict.
  rewrite (deepReadObject_padding (dict_object st)) by done. split; [|done].
  destruct (current_table st) as [table|]; [|done]. cbn [mbind result_bind].
  by rewrite deepReadObject_padding.
Qed.

(** *** The actions *)

Lemma store_eq st st' :
  currentLocale st = currentLocale st' -> dictionary st = dictionary st' ->
  st = st'.
Proof. destruct st, st'. simpl. by intros -> ->. Qed.

(** [add] stores the merged table, or it leaves the store as it is. *)
Lemma add_stores_or_not lang st :
  own_or_new st lang \/ (forall table, (actions.add lang table st).2 = st).
Proof.
  unfold own_or_new, actions.add.
  destruct (dictionary st !! lang) as [t|]; [left; left; eauto|].
  destruct (inherited OfObject lang) as [t|]; [|by right].
  destruct (truthy t) eqn:Ht; [by right | left; right; eauto].
Qed.

Lemma add_store lang table st :
  own_or_new st lang ->
  (actions.add lang table st).2 =
  {| currentLocale := currentLocale st;
     dictionary := <[lang := object_assign (default ∅ (dictionary st !! lang)) table]>
                     (dictionary st) |}.
Proof. intros Hl. by rewrite add_stores. Qed.


(** X15: Two [add] to one locale are one [add] of the second table assigned over
    the first, and an [add] made twice is the [add] made once. *)
Theorem add_twice lang t1 t2 st :
  (actions.add lang t2 (actions.add lang t1 st).2).2 =
    (actions.add lang (object_assign t1 t2) st).2 /\
  (actions.add lang t1 (actions.add lang t1 st).2).2 = (actions.add lang t1 st).2.
Proof.
  assert (Hadd : forall a b,
    (actions.add lang b (actions.add lang a st).2).2 =
    (actions.add lang (object_assign a b) st).2).
  { intros a b. destruct (add_stores_or_not lang st) as [Hown | Hnot].
    - rewrite (add_store lang a st Hown), (add_store lang _ st Hown).
      rewrite add_store by (left; simpl; rewrite lookup_insert_eq; eauto).
      apply store_eq; [done|]. simpl.
      rewrite lookup_insert_eq, insert_insert_eq. simpl.
      unfold object_assign. by rewrite (assoc_L (∪)).
    - by rewrite !Hnot. }
  split; [apply Hadd|]. rewrite Hadd. unfold object_assign.
  by rewrite (idemp_L (∪)).
Qed.

(** X17: An [add] to a locale that is not the current one, and that has a
    table of its own or nothing truthy under its name, changes no
    translation: [translate] reads the same table and, unless the value it
    resolves is a function, returns the same result. *)
Theorem add_to_other_locale lang table st key params defaultValue :
  lang <> currentLocale st -> own_or_new st lang ->
  let st' := (actions.add lang table st).2 in
  current_table st' = current_table st /\
  ((forall f, (t ← current_table st;
               deepReadObject t key (or_else defaultValue (VStr ""))) <> Ok (VFun f)) ->
   (translate key params defaultValue st').1 =
   (translate key params defaultValue st).1).
Proof.
  intros Hne Hown st'.
  assert (Hcur : current_table st' = current_table st).
  { subst st'. rewrite add_store by done.
    unfold current_table, dict_object, locale_signal, get_member. simpl.
    by rewrite !lookup_fmap, lookup_insert_ne. }
  split; [exact Hcur|]. intros Hfun. unfold translate. rewrite Hcur.
  destruct (_ ← current_table st; _) as [[]|]; try done.
  by destruct (Hfun f).
Qed.

(** X18: [dict] reads back what [add] stored, for a locale code of one
    segment that [trim] leaves alone and that has a table of its own or
    nothing truthy under its name. *)
Theorem dict_after_add lang table st :
  plain_key lang -> own_or_new st lang ->
  let st' := (actions.add lang table st).2 in
  actions.dict lang st' =
  (Ok (VObj (object_assign (default ∅ (dictionary st !! lang)) table)), st').
Proof.
  intros Hk Hown st'. unfold actions.dict, dict_object.
  rewrite (read_own_segment _ _ _
             (VObj (object_assign (default ∅ (dictionary st !! lang)) table))).
  - done.
  - rewrite plain_key_trim by done. apply Hk.
  - rewrite plain_key_trim by done. subst st'. rewrite add_store by done.
    simpl. by rewrite lookup_fmap, lookup_insert_eq.
Qed.

(** X19: For a locale code that holds a dot or begins with white space, [add]
    changes nothing that [dict] returns, for any argument: [dict] cannot
    read such a locale back, though [translate] reads its table. *)
Theorem dict_blind_to_dotted_locale lang table st path :
  dot_free lang = false \/ starts_clean lang = false ->
  (actions.dict path (actions.add lang table st).2).1 = (actions.dict path st).1.
Proof.
  intros Hlang. destruct (add_stores_or_not lang st) as [Hown | Hnot].
  - rewrite add_store by done. unfold actions.dict, dict_object. simpl.
    rewrite fmap_insert. by apply read_unreachable.
  - by rewrite Hnot.
Qed.

(** X20: Whatever is called on the actions, the current locale never becomes
    the empty string once it is not. *)
Theorem locale_never_emptied acts : forall st,
  currentLocale st <> "" -> currentLocale (run_actions acts st) <> "".
Proof.
  induction acts as [|a acts IH]; intros st Hst; [done|].
  cbn [run_actions]. apply IH.
  destruct a as [lang table|[l|]|lang]; cbn [run_action]; try done.
  - by rewrite add_locale.
  - unfold actions.locale. simpl. destruct (String.eqb l "") eqn:Hl; simpl; [done|].
    by apply String.eqb_neq.
Qed.

(** X21: No call on the actions removes a locale from the dictionary or a key
    from a table. *)
Theorem actions_never_remove acts : forall st l t,
  dictionary st !! l = Some t ->
  exists t', dictionary (run_actions acts st) !! l = Some t' /\
             forall k, is_Some (t !! k) -> is_Some (t' !! k).
Proof.
  induction acts as [|a acts IH]; intros st l t Ht; [by exists t|].
  cbn [run_actions].
  assert (Hstep : exists t1, dictionary (run_action a st).2 !! l = Some t1 /\
                             forall k, is_Some (t !! k) -> is_Some (t1 !! k)).
  { destruct a as [lang table|[l'|]|lang]; cbn [run_action]; try (by exists t).
    - destruct (add_stores_or_not lang st) as [Hown | Hnot];
        [|rewrite Hnot; by exists t].
      rewrite add_store by done. simpl.
      destruct (decide (lang = l)) as [->|Hne].
      + rewrite lookup_insert_eq, Ht. eexists. split; [done|].
        intros k [v Hv]. rewrite lookup_object_assign. simpl.
        destruct (table !! k); [done | by rewrite Hv].
      + rewrite lookup_insert_ne by done. by exists t.
    - unfold actions.locale. destruct (truthy (VStr l')); simpl; by exists t. }
  destruct Hstep as (t1 & Ht1 & Hkeys).
  destruct (IH _ _ _ Ht1) as (t' & Ht' & Hkeys').
  exists t'. split; [done|]. intros k Hk. by apply Hkeys', Hkeys.
Qed.

End Further.

(** ** The further properties at concrete inputs *)

Lemma template_without_placeholder_witness :
  template (H:=standard_host) "Hello {{ you" tom = Ok "Hello {{ you".
Proof.
  apply (@template_without_placeholder standard_host). right. reflexivity.
Defined.

Lemma template_text_then_placeholder_witness :
  template (H:=standard_host) ("Hello " ++ "{{" ++ " name " ++ "}}" ++ "!") tom =
  (v ← deepReadObject (H:=standard_host) tom " name " (VStr "");
   r ← to_string (H:=standard_host) v;
   rest' ← template (H:=standard_host) "!" tom;
   mret ("Hello " ++ r ++ rest')).
Proof.
  apply (@template_text_then_placeholder standard_host "Hello " " name " "!" tom).
  - reflexivity.
  - split; reflexivity.
Defined.

Lemma template_broken_placeholder_witness :
  template (H:=standard_host) ("{{" ++ "{x" ++ String "010" "me }}") tom =
  (r ← template (H:=standard_host) "me }}" tom;
   mret ("{{" ++ "{x" ++ String "010" r)).
Proof.
  apply (@template_broken_placeholder standard_host); reflexivity.
Defined.

Lemma template_value_verbatim_witness :
  template (H:=standard_host) ("Hi " ++ "{{" ++ "name" ++ "}}" ++ "!")
    (VObj {[ "name" := VStr "{{ name }}" ]}) = Ok ("Hi " ++ "{{ name }}" ++ "!").
Proof.
  apply (@template_value_verbatim standard_host).
  - reflexivity.
  - split; reflexivity.
  - left. reflexivity.
  - reflexivity.
Defined.

Lemma template_prints_falsy_values_witness :
  template (H:=standard_host) ("n=" ++ "{{" ++ " n " ++ "}}" ++ ";")
    (VObj {[ "n" := VNull ]}) = Ok ("n=" ++ "null" ++ ";") /\
  template (H:=standard_host) ("n=" ++ "{{" ++ " n " ++ "}}" ++ ";")
    (VObj {[ "m" := VNull ]}) = Ok ("n=" ++ ";").
Proof.
  split.
  - pose proof (@template_prints_falsy_values standard_host "n=" " n " ";"
                  {[ "n" := VNull ]} eq_refl (conj eq_refl eq_refl)
                  (or_introl eq_refl) eq_refl) as Hw.
    cbv zeta in Hw. apply Hw. reflexivity.
  - pose proof (@template_prints_falsy_values standard_host "n=" " n " ";"
                  {[ "m" := VNull ]} eq_refl (conj eq_refl eq_refl)
                  (or_introl eq_refl) eq_refl) as Hw.
    cbv zeta in Hw. apply Hw. right. split; vm_compute; reflexivity.
Defined.

Lemma deepReadObject_unreachable_name_witness :
  deepReadObject (H:=standard_host)
    (VObj (<[ "a.b" := VStr "flat" ]> {[ "a" := VObj {[ "b" := VStr "nested" ]} ]}))
    "a.b" VUndefined =
  deepReadObject (H:=standard_host)
    (VObj {[ "a" := VObj {[ "b" := VStr "nested" ]} ]}) "a.b" VUndefined.
Proof.
  apply (@deepReadObject_unreachable_name standard_host). left. reflexivity.
Defined.

Lemma translate_string_leaf_witness :
  translate (H:=standard_host) "title" tom VUndefined (createI18nContext test_dict "fr") =
  (VStr <$> template (H:=standard_host) "Bonjour" (if truthy tom then tom else VObj ∅),
   createI18nContext test_dict "fr").
Proof.
  apply (@translate_string_leaf standard_host "title" tom VUndefined
           (createI18nContext test_dict "fr") {[ "title" := VStr "Bonjour" ]}).
  - vm_compute. reflexivity.
  - repeat split; reflexivity.
  - reflexivity.
Defined.

Lemma translate_nested_leaf_witness :
  let st := createI18nContext
              {[ "en" := {[ "home " := VObj {[ " title" := VStr "Hi" ]} ]} ]} "en" in
  translate (H:=standard_host) ("home " ++ "." ++ " title") tom VUndefined st =
  (VStr <$> template (H:=standard_host) "Hi" (if truthy tom then tom else VObj ∅), st).
Proof.
  apply (@translate_nested_leaf standard_host "home " " title" tom VUndefined _
           {[ "home " := VObj {[ " title" := VStr "Hi" ]} ]}
           {[ " title" := VStr "Hi" ]}); try reflexivity.
Defined.

Lemma translate_default_is_interpolated_witness :
  translate (H:=standard_host) "hello" tom (VStr "Hello {{ name }}!")
    (createI18nContext test_dict "sw") =
  (VStr <$> template (H:=standard_host) "Hello {{ name }}!"
              (if truthy tom then tom else VObj ∅),
   createI18nContext test_dict "sw").
Proof.
  apply (@translate_default_is_interpolated standard_host).
  vm_compute. reflexivity.
Defined.

Lemma translate_ignores_padding_witness :
  translate (H:=standard_host) ("  " ++ "title" ++ " ") tom VUndefined
    (createI18nContext test_dict "fr") =
  translate (H:=standard_host) "title" tom VUndefined (createI18nContext test_dict "fr") /\
  actions.dict (H:=standard_host) ("  " ++ "fr" ++ " ") (createI18nContext test_dict "fr") =
  actions.dict (H:=standard_host) "fr" (createI18nContext test_dict "fr").
Proof.
  split.
  - apply (@translate_ignores_padding standard_host "  " "title" " "); reflexivity.
  - apply (@translate_ignores_padding standard_host "  " "fr" " " tom VUndefined);
      reflexivity.
Defined.



Lemma add_to_other_locale_witness :
  let st := createI18nContext test_dict "fr" in
  let st' := (actions.add (H:=standard_host) "en" {[ "title" := VStr "Hi" ]} st).2 in
  current_table (H:=standard_host) st' = current_table (H:=standard_host) st /\
  (translate (H:=standard_host) "title" tom VUndefined st').1 =
  (translate (H:=standard_host) "title" tom VUndefined st).1.
Proof.
  pose proof (@add_to_other_locale standard_host "en" {[ "title" := VStr "Hi" ]}
                (createI18nContext test_dict "fr") "title" tom VUndefined) as Hw.
  cbv zeta in *. destruct Hw as [Hcur Hres].
  - discriminate.
  - left. vm_compute. eauto.
  - split; [exact Hcur|]. apply Hres. intros f. vm_compute. discriminate.
Defined.

Lemma dict_after_add_witness :
  let st := createI18nContext test_dict "fr" in
  let st' := (actions.add (H:=standard_host) "fr" {[ "bye" := VStr "Salut" ]} st).2 in
  actions.dict (H:=standard_host) "fr" st' =
  (Ok (VObj (object_assign (default ∅ (dictionary st !! "fr"))
               {[ "bye" := VStr "Salut" ]})), st').
Proof.
  apply (@dict_after_add standard_host).
  - repeat split; reflexivity.
  - left. vm_compute. eauto.
Defined.

Lemma dict_blind_to_dotted_locale_witness :
  (actions.dict (H:=standard_host) "en.US"
     (actions.add (H:=standard_host) "en.US" {[ "title" := VStr "Howdy" ]}
        (createI18nContext test_dict "fr")).2).1 =
  (actions.dict (H:=standard_host) "en.US" (createI18nContext test_dict "fr")).1.
Proof.
  apply (@dict_blind_to_dotted_locale standard_host). left. reflexivity.
Defined.

Lemma locale_never_emptied_witness :
  currentLocale
    (run_actions (H:=standard_host)
       [Locale (Some ""); Add "sw" ∅; Locale (Some "sw"); Locale (Some ""); Dict "sw"]
       (createI18nContext test_dict "fr")) <> "".
Proof. apply (@locale_never_emptied standard_host). discriminate. Defined.

Lemma actions_never_remove_witness :
  exists t',
    dictionary
      (run_actions (H:=standard_host)
         [Add "fr" {[ "bye" := VStr "Salut" ]}; Locale (Some "en"); Add "fr" ∅;
          Add "__proto__" {[ "x" := VNull ]}]
         (createI18nContext test_dict "fr")) !! "fr" = Some t' /\
    forall k, is_Some (({[ "title" := VStr "Bonjour" ]} : gmap string value) !! k) ->
              is_Some (t' !! k).
Proof.
  apply (@actions_never_remove standard_host). vm_compute. reflexivity.
Defined.
